(** * stellar::Logging and stellar::DLogger (source/scpp/src/util/Logging.h)

    A shallow embedding of the C++ logging facade that forwards to the
    D side of agora.  The header defines six level macros, the two
    predicates [Logging::logDebug] and [Logging::logTrace], and the
    stream-style accumulator [DLogger] with its templated [operator<<].

    Conventions of the embedding:
    - a C++ [int] is a [Z]; the header only compares levels, it never does
      arithmetic on them, so no wrap-around can occur;
    - a [std::string] is a [string]; it may hold NUL characters, and
      [c_str] is what a callee taking [const char*] can read of it;
    - the functions of namespace [agora] are external: they are modelled
      by a journal of calls and a level configuration;
    - [DLogger] objects live in a store indexed by address, so that
      [return *this] can be stated as returning the same address. *)

From Stdlib Require Import ZArith.
From stdpp Require Import base option gmap strings list pretty.

Local Open Scope Z_scope.

(** ** The level macros *)

Module Levels.

Definition TRACE : Z := 0.
Definition DEBUG : Z := 0.
Definition INFO  : Z := 1.
Definition WARN  : Z := 2.
Definition ERROR : Z := 3.
Definition FATAL : Z := 4.

(** The six macro names, as a type of their own. *)
Inductive Severity : Type :=
  | Trace | Debug | Info | Warn | Error | Fatal.

(** What the preprocessor substitutes for each name. *)
Definition value (s : Severity) : Z :=
  match s with
  | Trace => TRACE
  | Debug => DEBUG
  | Info  => INFO
  | Warn  => WARN
  | Error => ERROR
  | Fatal => FATAL
  end.

Definition all_severities : list Severity :=
  [Trace; Debug; Info; Warn; Error; Fatal].

#[global] Instance Severity_eq_dec : EqDecision Severity.
Proof. solve_decision. Defined.

End Levels.

Export Levels.

(** ** Strings crossing into namespace agora *)

(** [s.c_str()] as seen through a [const char*]: the characters before the
    first NUL. *)
Fixpoint c_str (s : string) : string :=
  match s with
  | EmptyString => EmptyString
  | String c rest =>
      if Ascii.eqb c Ascii.zero then EmptyString else String c (c_str rest)
  end.

(** ** The accumulator object *)

Record DLogger : Type := mkDLogger {
  mLoggerName : string;
  mLevel      : Z;
  mOutStream  : string   (* the text held by the std::ostringstream *)
}.

Definition loc : Type := positive.

(** ** The world outside and around the header *)

Inductive ExternCall : Type :=
  | CallGetLogLevel (logger : string)
  | CallWriteDLog (logger : string) (level : Z) (msg : string).

Record World : Type := mkWorld {
  config  : string → Z;          (* level the D side has set per logger *)
  calls   : list ExternCall;     (* calls into namespace agora, oldest first *)
  objects : gmap loc DLogger     (* the DLogger objects currently alive *)
}.

Definition with_calls (f : list ExternCall → list ExternCall) (w : World) : World :=
  {| config := config w; calls := f (calls w); objects := objects w |}.

Definition with_objects (f : gmap loc DLogger → gmap loc DLogger) (w : World) : World :=
  {| config := config w; calls := calls w; objects := f (objects w) |}.

Definition with_config (c : string → Z) (w : World) : World :=
  {| config := c; calls := calls w; objects := objects w |}.

(** Computations over the world; [None] is undefined behaviour (a member
    function run on an object that is not alive). *)
Definition M (A : Type) : Type := World → option (A * World).

#[global] Instance M_ret : MRet M := λ A x w, Some (x, w).

#[global] Instance M_bind : MBind M := λ A B k m w,
  match m w with
  | Some (a, w') => k a w'
  | None => None
  end.

(** Modelled from the spec: [agora::getLogLevel] is only declared in the
    header (it is implemented in D).  The spec's [currentMinimumLevel]:
    total, reports the level currently configured for the logger, and has
    no effect beyond the query itself. *)
Definition getLogLevel (logger : string) : M Z := λ w,
  Some (config w logger, with_calls (λ cs, cs ++ [CallGetLogLevel logger]) w).

(** Modelled from the spec: [agora::writeDLog] is only declared in the
    header.  The spec's sink operation [acceptMessage]: it receives a
    partition, a severity and a text. *)
Definition writeDLog (logger : string) (level : Z) (msg : string) : M () := λ w,
  Some ((), with_calls (λ cs, cs ++ [CallWriteDLog logger level msg]) w).

(** The level the store would report for a partition handed over as
    [partition.c_str()]. *)
Definition currentMinimumLevel (w : World) (partition : string) : Z :=
  config w (c_str partition).

(** ** class Logging *)

Definition logDebug (partition : string) : M bool :=
  lvl ← getLogLevel (c_str partition); mret (lvl <=? DEBUG).

Definition logTrace (partition : string) : M bool :=
  lvl ← getLogLevel (c_str partition); mret (lvl <=? TRACE).

(** ** struct DLogger *)

(** A type that [std::ostream] can print: [text_of v] is what
    [stream << v] writes for a value [v], the stream being in the
    formatting state a default-constructed [std::ostringstream] has.
    Manipulators such as [std::hex], which change that state instead of
    writing text, are not values of such a type. *)
Class Insertable (T : Type) : Type := text_of : T → string.

#[global] Instance Insertable_string : Insertable string := λ s, s.
#[global] Instance Insertable_char : Insertable Ascii.ascii := λ c, String c "".
#[global] Instance Insertable_int : Insertable Z := λ n, pretty n.
#[global] Instance Insertable_bool : Insertable bool := λ b, if b then "1" else "0".

(** [mOutStream << value] *)
Definition ostream_put {T} `{Insertable T} (buf : string) (value : T) : string :=
  buf +:+ text_of value.

(** [template <class T> DLogger &operator<<(const T &value)] *)
Definition operator_shl {T} `{Insertable T} (this : loc) (value : T) : M loc := λ w,
  match objects w !! this with
  | None => None
  | Some self =>
      let self' := {| mLoggerName := mLoggerName self;
                      mLevel := mLevel self;
                      mOutStream := ostream_put (mOutStream self) value |} in
      Some (this, with_objects (insert this self') w)
  end.

(** A value together with the way it prints: one operand of a [<<] chain. *)
Inductive Fragment : Type :=
  | Frag {T : Type} `{Insertable T} (value : T).

Definition frag_text (f : Fragment) : string :=
  match f with Frag v => text_of v end.

(** The chain [d << f1 << ... << fn], which C++ reads as
    [(((d << f1) << ...) << fn)]: each call runs on what the previous one
    returned. *)
Fixpoint appends (this : loc) (fs : list Fragment) : M loc :=
  match fs with
  | [] => mret this
  | Frag v :: rest => this' ← operator_shl this v; appends this' rest
  end.

(** The spec's reading of a message: the renderings of the fragments, one
    after the other, nothing in between. *)
Definition concat_text (fs : list Fragment) : string :=
  foldr (λ f acc, frag_text f +:+ acc) "" fs.

(** ** What the header declares and does not define *)

(** Modelled from the spec: the gate predicate [LevelGate.isEnabled] is not
    a function of the header.  "Returns true iff severity >=
    currentMinimumLevel(partition)"; the store is asked through
    [agora::getLogLevel] the way [logDebug] and [logTrace] ask it. *)
Definition isEnabled (partition : string) (severity : Z) : M bool :=
  minimum ← getLogLevel (c_str partition); mret (severity >=? minimum).

(** Modelled from the spec: the constructor [DLogger::DLogger(int level,
    std::string const& loggerName)] is declared in the header and defined
    elsewhere.  It creates an accumulator owning the given severity and
    partition and no fragments yet; it asks the gate nothing. *)
Definition DLogger_ctor (level : Z) (loggerName : string) : M loc := λ w,
  let this := fresh (dom (objects w)) in
  Some (this, with_objects (insert this (mkDLogger loggerName level "")) w).

(** The storage of a destroyed object goes away. *)
Definition release (this : loc) : M () := λ w,
  Some ((), with_objects (delete this) w).

(** Modelled from the spec: the destructor [DLogger::~DLogger()] is declared
    in the header and defined elsewhere.  Finalizing: the gate is evaluated
    for the stored partition and severity; if enabled, the concatenated
    text, the severity and the partition are handed to the sink; if not,
    the text is discarded. *)
Definition DLogger_dtor (this : loc) : M () := λ w,
  match objects w !! this with
  | None => None
  | Some self =>
      (enabled ← isEnabled (mLoggerName self) (mLevel self);
       _ ← (if enabled : bool
            then writeDLog (mLoggerName self) (mLevel self) (mOutStream self)
            else mret ());
       release this) w
  end.

(** [#define CLOG(LEVEL, MOD) stellar::DLogger(LEVEL, MOD)] *)
Definition CLOG (LEVEL : Z) (MOD : string) : M loc := DLogger_ctor LEVEL MOD.

(** One log statement, [CLOG(LEVEL, MOD) << f1 << ... << fn;]: the
    temporary is destroyed at the end of the full expression. *)
Definition log_statement (LEVEL : Z) (MOD : string) (fs : list Fragment) : M () :=
  d ← CLOG LEVEL MOD; d' ← appends d fs; DLogger_dtor d'.

(** The D side changes the configured levels. *)
Definition reconfigure (c : string → Z) : M () := λ w,
  Some ((), with_config c w).

(** A log statement during which the levels are reconfigured, after the
    fragments [fs1] and before the fragments [fs2]. *)
Definition log_statement_reconfigured
    (LEVEL : Z) (MOD : string) (fs1 fs2 : list Fragment) (c : string → Z) : M () :=
  d ← CLOG LEVEL MOD;
  d1 ← appends d fs1;
  _ ← reconfigure c;
  d2 ← appends d1 fs2;
  DLogger_dtor d2.

(** What a run added to the journal, for runs on a world with an empty
    journal. *)
Definition journal {A} (r : option (A * World)) : option (list ExternCall) :=
  match r with
  | Some (_, w) => Some (calls w)
  | None => None
  end.

(** What a run returned. *)
Definition result {A} (r : option (A * World)) : option A :=
  match r with
  | Some (a, _) => Some a
  | None => None
  end.

(** The predicate asked twice, the levels being reconfigured in between. *)
Definition ask_reconfigure_ask (ask : M bool) (c : string → Z) : M (bool * bool) :=
  b1 ← ask; _ ← reconfigure c; b2 ← ask; mret (b1, b2).

(** The calls of a journal that reached the sink, and those that asked the
    gate. *)
Definition is_delivery (c : ExternCall) : bool :=
  match c with CallWriteDLog _ _ _ => true | CallGetLogLevel _ => false end.

Definition is_gate_query (c : ExternCall) : bool :=
  match c with CallGetLogLevel _ => true | CallWriteDLog _ _ _ => false end.

Definition deliveries (cs : list ExternCall) : list ExternCall :=
  List.filter is_delivery cs.

Definition gate_queries (cs : list ExternCall) : list ExternCall :=
  List.filter is_gate_query cs.

(** What finalizing an accumulator [self] adds to the journal when the
    configuration is [c]. *)
Definition finalize_calls (c : string → Z) (self : DLogger) : list ExternCall :=
  CallGetLogLevel (c_str (mLoggerName self)) ::
  (if mLevel self >=? c (c_str (mLoggerName self))
   then [CallWriteDLog (mLoggerName self) (mLevel self) (mOutStream self)]
   else []).

(** Between [w] and [w'] nothing happened but [appended] being added to
    the text of the accumulator at [this]: no call into namespace agora,
    the configuration, the stored name and level and every other object
    as before. *)
Definition only_text_grew (w w' : World) (this : loc) (appended : string) : Prop :=
  calls w' = calls w
  ∧ config w' = config w
  ∧ (∃ self self',
       objects w !! this = Some self
       ∧ objects w' !! this = Some self'
       ∧ mLoggerName self' = mLoggerName self
       ∧ mLevel self' = mLevel self
       ∧ mOutStream self' = mOutStream self +:+ appended)
  ∧ (∀ other : loc, other ≠ this → objects w' !! other = objects w !! other).

(** No NUL character occurs in [s]. *)
Fixpoint nul_free (s : string) : bool :=
  match s with
  | EmptyString => true
  | String c rest => negb (Ascii.eqb c Ascii.zero) && nul_free rest
  end.

(** Two computations one after the other, and the same two the other way
    round; both return the pair of results. *)
Definition in_order {A B} (ma : M A) (mb : M B) : M (A * B) :=
  a ← ma; b ← mb; mret (a, b).

Definition in_reverse {A B} (ma : M A) (mb : M B) : M (A * B) :=
  b ← mb; a ← ma; mret (a, b).

(** The number of characters the fragments render to. *)
Definition rendered_length (fs : list Fragment) : nat :=
  foldr (λ f n, (String.length (frag_text f) + n)%nat) 0%nat fs.

(** ** Concrete worlds used by the examples *)

(** Partition "net" is configured at WARN, every other one at INFO; two
    accumulators are alive. *)
Definition w_net : World :=
  {| config := λ s, if String.eqb s "net" then WARN else INFO;
     calls := [];
     objects := {[ 1%positive := mkDLogger "net" ERROR "conn ";
                   2%positive := mkDLogger "db" INFO "" ]} |}.

(** A world that agrees with [w_net] on partition "net" only. *)
Definition w_other : World :=
  {| config := λ s, if String.eqb s "net" then WARN else FATAL;
     calls := [CallGetLogLevel "db"];
     objects := ∅ |}.

(** [w_net] with every partition at TRACE, and with every partition below
    all the named levels. *)
Definition w_net_verbose : World := with_config (λ _, TRACE) w_net.

Definition w_net_negative : World := with_config (λ _, -1) w_net.

(** Every partition at TRACE. *)
Definition c_verbose : string → Z := λ _, TRACE.

(** Every partition at FATAL. *)
Definition c_quiet : string → Z := λ _, FATAL.

(** * Properties *)

(** ** Running examples from the specification *)

Example scenario_info_filtered :
  journal (log_statement INFO "net" [Frag "conn "; Frag 42; Frag " closed"] w_net)
  = Some [CallGetLogLevel "net"].
Proof. vm_compute. reflexivity. Qed.

Example scenario_error_delivered :
  journal (log_statement ERROR "net" [Frag "conn "; Frag 42; Frag " failed"] w_net)
  = Some [CallGetLogLevel "net"; CallWriteDLog "net" ERROR "conn 42 failed"].
Proof. vm_compute. reflexivity. Qed.

Example c_str_stops_at_nul :
  c_str ("a" +:+ String Ascii.zero "b") = "a".
Proof. reflexivity. Qed.

(** ** Strings *)

Lemma append_cons (a : Ascii.ascii) (s t : string) :
  String a s +:+ t = String a (s +:+ t).
Proof. reflexivity. Qed.

Lemma append_empty_r (s : string) : s +:+ "" = s.
Proof.
  induction s as [|a s IH]; [reflexivity|].
  rewrite append_cons. f_equal. exact IH.
Qed.

Lemma append_assoc (s t u : string) : (s +:+ t) +:+ u = s +:+ (t +:+ u).
Proof.
  induction s as [|a s IH]; [reflexivity|].
  rewrite !append_cons. f_equal. exact IH.
Qed.

Lemma concat_text_app (fs gs : list Fragment) :
  concat_text (fs ++ gs) = concat_text fs +:+ concat_text gs.
Proof.
  induction fs as [|f fs IH]; [reflexivity|].
  unfold concat_text in *. simpl foldr. rewrite IH, append_assoc. reflexivity.
Qed.

(** ** Running the operations *)

Lemma bind_run {A B} (m : M A) (k : A → M B) (w w' : World) (a : A) :
  m w = Some (a, w') → (x ← m; k x) w = k a w'.
Proof. intros Hm. unfold mbind, M_bind. by rewrite Hm. Qed.

Lemma fresh_not_alive (w : World) : objects w !! fresh (dom (objects w)) = None.
Proof. apply not_elem_of_dom, is_fresh. Qed.

(** One [<<] on a live object. *)
Lemma operator_shl_run {T} `{Insertable T} (this : loc) (value : T) (w : World) (self : DLogger) :
  objects w !! this = Some self →
  operator_shl this value w =
    Some (this, with_objects
            (insert this (mkDLogger (mLoggerName self) (mLevel self)
                                    (mOutStream self +:+ text_of value))) w).
Proof. intros Hl. unfold operator_shl. by rewrite Hl. Qed.

(** A whole chain on a live object: the iterated in-place updates amount
    to one update by the concatenated text. *)
Lemma appends_run (fs : list Fragment) : ∀ (this : loc) (w : World) (self : DLogger),
  objects w !! this = Some self →
  appends this fs w =
    Some (this, with_objects
            (insert this (mkDLogger (mLoggerName self) (mLevel self)
                                    (mOutStream self +:+ concat_text fs))) w).
Proof.
  induction fs as [|[T HT v] fs IH]; intros this w self Hl.
  - cbn [appends concat_text foldr]. rewrite append_empty_r.
    destruct self as [n l t], w as [c cs o]; cbn in *.
    unfold mret, M_ret, with_objects; cbn. by rewrite insert_id.
  - cbn [appends].
    rewrite (bind_run _ _ _ _ _ (operator_shl_run this v w self Hl)).
    rewrite (IH this _ (mkDLogger (mLoggerName self) (mLevel self)
                                  (mOutStream self +:+ text_of v))).
    + destruct w as [c cs o]; unfold with_objects; cbn.
      rewrite insert_insert_eq, append_assoc. reflexivity.
    + destruct w as [c cs o]; cbn. apply lookup_insert_eq.
Qed.

Lemma DLogger_dtor_run (this : loc) (w : World) (self : DLogger) :
  objects w !! this = Some self →
  DLogger_dtor this w =
    Some ((), with_objects (delete this)
                (with_calls (λ cs, cs ++ finalize_calls (config w) self) w)).
Proof.
  intros Hl. unfold DLogger_dtor. rewrite Hl.
  unfold finalize_calls, isEnabled, getLogLevel, writeDLog, release.
  unfold mbind, M_bind, mret, M_ret. destruct w as [c cs o]; cbn.
  destruct (mLevel self >=? c (c_str (mLoggerName self))); cbn;
    unfold with_objects, with_calls; cbn; by rewrite <- ?(assoc_L (++)).
Qed.

Lemma CLOG_run (LEVEL : Z) (MOD : string) (w : World) :
  CLOG LEVEL MOD w =
    Some (fresh (dom (objects w)),
          with_objects (insert (fresh (dom (objects w))) (mkDLogger MOD LEVEL "")) w).
Proof. reflexivity. Qed.

(** A complete log statement leaves the store of objects and the
    configuration as they were and adds to the journal what finalizing
    the filled accumulator adds. *)
Lemma log_statement_run (LEVEL : Z) (MOD : string) (fs : list Fragment) (w : World) :
  log_statement LEVEL MOD fs w =
    Some ((), with_calls
                (λ cs, cs ++ finalize_calls (config w) (mkDLogger MOD LEVEL (concat_text fs))) w).
Proof.
  unfold log_statement.
  rewrite (bind_run _ _ _ _ _ (CLOG_run LEVEL MOD w)).
  set (this := fresh (dom (objects w))).
  assert (Hfresh : objects w !! this = None) by apply fresh_not_alive.
  erewrite bind_run; last first.
  { apply appends_run with (self := mkDLogger MOD LEVEL "").
    destruct w; cbn. apply lookup_insert_eq. }
  erewrite DLogger_dtor_run; last first.
  { destruct w; cbn. apply lookup_insert_eq. }
  destruct w as [c cs o]; unfold with_objects, with_calls; cbn in *.
  rewrite insert_insert_eq, delete_insert_id by done. reflexivity.
Qed.

Lemma log_statement_reconfigured_run
    (LEVEL : Z) (MOD : string) (fs1 fs2 : list Fragment) (c : string → Z) (w : World) :
  log_statement_reconfigured LEVEL MOD fs1 fs2 c w =
    Some ((), with_calls
                (λ cs, cs ++ finalize_calls c (mkDLogger MOD LEVEL (concat_text (fs1 ++ fs2))))
                (with_config c w)).
Proof.
  unfold log_statement_reconfigured.
  rewrite (bind_run _ _ _ _ _ (CLOG_run LEVEL MOD w)).
  set (this := fresh (dom (objects w))).
  assert (Hfresh : objects w !! this = None) by apply fresh_not_alive.
  erewrite bind_run; last first.
  { apply appends_run with (self := mkDLogger MOD LEVEL "").
    destruct w; cbn. apply lookup_insert_eq. }
  erewrite bind_run; last reflexivity.
  erewrite bind_run; last first.
  { apply appends_run with (self := mkDLogger MOD LEVEL ("" +:+ concat_text fs1)).
    destruct w; cbn. apply lookup_insert_eq. }
  erewrite DLogger_dtor_run; last first.
  { destruct w; cbn. apply lookup_insert_eq. }
  destruct w as [c0 cs o]; unfold with_objects, with_calls, with_config; cbn in *.
  rewrite !insert_insert_eq, delete_insert_id by done.
  rewrite concat_text_app. reflexivity.
Qed.

(** ** The level macros *)

(** The values TRACE=0, DEBUG=1, INFO=2, WARN=3, ERROR=4, FATAL=5 with no
    value shared (C2 as worded) are not those of the header, which
    defines DEBUG as 0, the value of TRACE. *)
Lemma severity_listed_values_counterexample :
  ¬ (value Trace = 0 ∧ value Debug = 1 ∧ value Info = 2 ∧ value Warn = 3
     ∧ value Error = 4 ∧ value Fatal = 5
     ∧ (∀ a b : Severity, value a ≤ value b ∨ value b ≤ value a)
     ∧ length all_severities = 6%nat
     ∧ (∀ a b : Severity, value a = value b → a = b)).
Proof. intros (_ & HDebug & _). vm_compute in HDebug. discriminate HDebug. Qed.

(** C2, amended: the six names TRACE, DEBUG, INFO, WARN, ERROR, FATAL have
    the values 0, 0, 1, 2, 3, 4; any two names are comparable by value;
    there are exactly six names; TRACE and DEBUG share the value 0 and are
    the only two names that share a value. *)
Theorem severity_values :
  (TRACE = 0 ∧ DEBUG = 0 ∧ INFO = 1 ∧ WARN = 2 ∧ ERROR = 3 ∧ FATAL = 4)
  ∧ (∀ a b : Severity, value a ≤ value b ∨ value b ≤ value a)
  ∧ (NoDup all_severities ∧ (∀ s : Severity, s ∈ all_severities)
     ∧ length all_severities = 6%nat)
  ∧ value Trace = value Debug
  ∧ (∀ a b : Severity,
       bool_decide (value a = value b) =
       bool_decide (a = b ∨ (a = Trace ∧ b = Debug) ∨ (a = Debug ∧ b = Trace))).
Proof.
  split; [by repeat split|].
  split; [intros a b; lia|].
  split.
  { split; [|split; [|reflexivity]].
    - apply (bool_decide_unpack _). vm_compute. exact I.
    - intros s. apply (bool_decide_unpack _). destruct s; vm_compute; exact I. }
  split; [reflexivity|].
  intros [] []; vm_compute; reflexivity.
Qed.

(** ** The two predicates of class Logging *)

(** C3: [logDebug(P)] returns true iff the level currently configured for
    [P] is at most DEBUG, and [logTrace(P)] iff it is at most TRACE.  Each
    call asks the store once and changes nothing else (no delivery, no
    object touched, the configuration as it was); asked again after a
    reconfiguration it answers from the new configuration; and each is
    the gate predicate [isEnabled] at DEBUG, respectively at TRACE. *)
Theorem logDebug_logTrace_gate (P : string) (w : World) :
  (logDebug P w =
     Some (bool_decide (currentMinimumLevel w P ≤ DEBUG),
           with_calls (λ cs, cs ++ [CallGetLogLevel (c_str P)]) w)
   ∧ logTrace P w =
     Some (bool_decide (currentMinimumLevel w P ≤ TRACE),
           with_calls (λ cs, cs ++ [CallGetLogLevel (c_str P)]) w))
  ∧ (∀ c : string → Z,
       result (ask_reconfigure_ask (logDebug P) c w) =
         Some (bool_decide (currentMinimumLevel w P ≤ DEBUG),
               bool_decide (c (c_str P) ≤ DEBUG))
       ∧ result (ask_reconfigure_ask (logTrace P) c w) =
         Some (bool_decide (currentMinimumLevel w P ≤ TRACE),
               bool_decide (c (c_str P) ≤ TRACE)))
  ∧ (logDebug P w = isEnabled P DEBUG w ∧ logTrace P w = isEnabled P TRACE w).
Proof.
  assert (Hleb : ∀ x y : Z, (x <=? y) = bool_decide (x ≤ y)).
  { intros x y. destruct (Z.leb_spec x y).
    - by rewrite bool_decide_eq_true_2.
    - rewrite bool_decide_eq_false_2; [done | lia]. }
  split; [|split].
  - unfold logDebug, logTrace, getLogLevel, currentMinimumLevel.
    unfold mbind, M_bind, mret, M_ret. by rewrite !Hleb.
  - intros c. unfold ask_reconfigure_ask, logDebug, logTrace, getLogLevel,
      reconfigure, currentMinimumLevel, result.
    unfold mbind, M_bind, mret, M_ret; cbn. by rewrite !Hleb.
  - unfold logDebug, logTrace, isEnabled, getLogLevel.
    unfold mbind, M_bind, mret, M_ret. by rewrite !Z.geb_leb.
Qed.

(** C8: for every partition and every world (so every state of the level
    store), [logDebug] and [logTrace] return the same boolean and leave
    the same world behind; DEBUG and TRACE are both 0. *)
Theorem logDebug_same_as_logTrace (P : string) (w : World) :
  logDebug P w = logTrace P w ∧ DEBUG = TRACE.
Proof. split; reflexivity. Qed.

(** C10: two calls of [logDebug] (or of [logTrace]) on the same partition
    in two worlds that agree on the level configured for that partition
    return the same boolean, whatever the two worlds hold for other
    partitions, in their journals and in their accumulators; and each
    call does return. *)
Theorem predicates_depend_on_own_level_only (P : string) (w1 w2 : World) :
  currentMinimumLevel w1 P = currentMinimumLevel w2 P →
  (result (logDebug P w1) = result (logDebug P w2) ∧ is_Some (result (logDebug P w1)))
  ∧ (result (logTrace P w1) = result (logTrace P w2) ∧ is_Some (result (logTrace P w1))).
Proof.
  unfold currentMinimumLevel. intros Hlvl.
  unfold logDebug, logTrace, getLogLevel, result.
  unfold mbind, M_bind, mret, M_ret; cbn. rewrite Hlvl. eauto.
Qed.

Lemma predicates_depend_on_own_level_only_witness :
  currentMinimumLevel w_net "net" = currentMinimumLevel w_other "net"
  ∧ (result (logDebug "net" w_net) = result (logDebug "net" w_other)
     ∧ is_Some (result (logDebug "net" w_net)))
  ∧ (result (logTrace "net" w_net) = result (logTrace "net" w_other)
     ∧ is_Some (result (logTrace "net" w_net))).
Proof.
  split; [reflexivity|].
  apply (predicates_depend_on_own_level_only "net" w_net w_other). reflexivity.
Defined.

(** ** operator<< *)

Lemma only_text_grew_insert (w : World) (this : loc) (self : DLogger) (t : string) :
  objects w !! this = Some self →
  only_text_grew w
    (with_objects (insert this (mkDLogger (mLoggerName self) (mLevel self)
                                          (mOutStream self +:+ t))) w)
    this t.
Proof.
  intros Hl. destruct w as [c cs o]; cbn in *.
  repeat split; cbn.
  - exists self, (mkDLogger (mLoggerName self) (mLevel self) (mOutStream self +:+ t)).
    rewrite lookup_insert_eq. done.
  - intros other Hne. by rewrite lookup_insert_ne.
Qed.

(** C4: for an accumulator and fragments F1..Fn (n >= 0) appended to it in
    this order, the text it holds afterwards is the text it held before
    followed by the renderings of F1..Fn in append order and nothing
    else; for an accumulator made by [CLOG] the text before is empty, so
    the text at finalization is exactly that concatenation. *)
Theorem accumulated_text_is_concatenation
    (w : World) (this : loc) (self : DLogger) (fs : list Fragment) :
  objects w !! this = Some self →
  (∃ w', appends this fs w = Some (this, w')
         ∧ objects w' !! this =
             Some (mkDLogger (mLoggerName self) (mLevel self)
                             (mOutStream self +:+ concat_text fs)))
  ∧ (∀ (LEVEL : Z) (MOD : string),
       ∃ d w', (d ← CLOG LEVEL MOD; appends d fs) w = Some (d, w')
               ∧ objects w' !! d = Some (mkDLogger MOD LEVEL (concat_text fs))).
Proof.
  intros Hl. split.
  - eexists. split; [by apply appends_run|].
    destruct w; cbn. apply lookup_insert_eq.
  - intros LEVEL MOD. do 2 eexists.
    rewrite (bind_run _ _ _ _ _ (CLOG_run LEVEL MOD w)).
    split.
    + apply appends_run with (self := mkDLogger MOD LEVEL "").
      destruct w; cbn. apply lookup_insert_eq.
    + destruct w; cbn. apply lookup_insert_eq.
Qed.

Lemma accumulated_text_is_concatenation_witness :
  objects w_net !! 1%positive = Some (mkDLogger "net" ERROR "conn ")
  ∧ (∃ w', appends 1%positive [Frag 42; Frag " failed"] w_net = Some (1%positive, w')
           ∧ objects w' !! 1%positive = Some (mkDLogger "net" ERROR "conn 42 failed"))
  ∧ (∀ (LEVEL : Z) (MOD : string),
       ∃ d w', (d ← CLOG LEVEL MOD; appends d [Frag 42; Frag " failed"]) w_net = Some (d, w')
               ∧ objects w' !! d = Some (mkDLogger MOD LEVEL "42 failed")).
Proof.
  split; [reflexivity|].
  exact (accumulated_text_is_concatenation
           w_net 1%positive (mkDLogger "net" ERROR "conn ") [Frag 42; Frag " failed"]
           eq_refl).
Defined.

(** C7: an append on a live accumulator returns the accumulator it was
    called on and changes only that accumulator's text: the journal of
    calls into namespace agora is as before (no gate query, no sink
    call), the stored name and level are as before, and so is every
    other object.  The same holds of a chain of any number of appends,
    zero included. *)
Theorem append_changes_only_text {T} `{Insertable T}
    (w : World) (this : loc) (self : DLogger) (value : T) (fs : list Fragment) :
  objects w !! this = Some self →
  (∃ w', operator_shl this value w = Some (this, w')
         ∧ only_text_grew w w' this (text_of value))
  ∧ (∃ w', appends this fs w = Some (this, w')
           ∧ only_text_grew w w' this (concat_text fs)).
Proof.
  intros Hl. split; eexists; split.
  - by apply operator_shl_run.
  - by apply only_text_grew_insert.
  - by apply appends_run.
  - by apply only_text_grew_insert.
Qed.

Lemma append_changes_only_text_witness :
  objects w_net !! 2%positive = Some (mkDLogger "db" INFO "")
  ∧ (∃ w', operator_shl 2%positive true w_net = Some (2%positive, w')
           ∧ only_text_grew w_net w' 2%positive "1")
  ∧ (∃ w', appends 2%positive [] w_net = Some (2%positive, w')
           ∧ only_text_grew w_net w' 2%positive "").
Proof.
  split; [reflexivity|].
  exact (append_changes_only_text w_net 2%positive (mkDLogger "db" INFO "") true []
           eq_refl).
Defined.

(** C9: on a live accumulator, appending [a] and then [b] gives the same
    result (same returned accumulator, same world, so same text) as
    appending one fragment [c] that renders as the rendering of [a]
    followed by that of [b]; a chain over [fs ++ gs] is the chain over
    [fs] followed by the chain over [gs]; and the empty chain changes
    nothing. *)
Theorem append_is_homomorphism {A B C} `{Insertable A, Insertable B, Insertable C}
    (w : World) (this : loc) (self : DLogger) (a : A) (b : B) (c : C)
    (fs gs : list Fragment) :
  objects w !! this = Some self →
  text_of c = text_of a +:+ text_of b →
  ((d ← operator_shl this a; operator_shl d b) w = operator_shl this c w
   ∧ is_Some (operator_shl this c w))
  ∧ appends this (fs ++ gs) w = (d ← appends this fs; appends d gs) w
  ∧ appends this [] w = Some (this, w).
Proof.
  intros Hl Hc. split; [split|split].
  - rewrite (bind_run _ _ _ _ _ (operator_shl_run this a w self Hl)).
    erewrite operator_shl_run; last first.
    { destruct w; cbn. apply lookup_insert_eq. }
    rewrite (operator_shl_run this c w self Hl), Hc.
    destruct w as [cf cs o]; unfold with_objects; cbn.
    rewrite insert_insert_eq, append_assoc. reflexivity.
  - rewrite (operator_shl_run this c w self Hl). eauto.
  - rewrite (bind_run _ _ _ _ _ (appends_run fs this w self Hl)).
    rewrite (appends_run (fs ++ gs) this w self Hl).
    erewrite appends_run; last first.
    { destruct w; cbn. apply lookup_insert_eq. }
    destruct w as [cf cs o]; unfold with_objects; cbn.
    rewrite insert_insert_eq, concat_text_app, append_assoc. reflexivity.
  - reflexivity.
Qed.

Lemma append_is_homomorphism_witness :
  objects w_net !! 1%positive = Some (mkDLogger "net" ERROR "conn ")
  ∧ text_of 42 = text_of "4" +:+ text_of 2
  ∧ ((d ← operator_shl 1%positive "4"; operator_shl d 2) w_net
       = operator_shl 1%positive 42 w_net
     ∧ is_Some (operator_shl 1%positive 42 w_net))
  ∧ appends 1%positive ([Frag "a"] ++ [Frag true]) w_net
      = (d ← appends 1%positive [Frag "a"]; appends d [Frag true]) w_net
  ∧ appends 1%positive [] w_net = Some (1%positive, w_net).
Proof.
  split; [reflexivity|]. split; [reflexivity|].
  exact (append_is_homomorphism w_net 1%positive (mkDLogger "net" ERROR "conn ")
           "4" 2 42 [Frag "a"] [Frag true] eq_refl eq_refl).
Defined.

(** ** A whole log statement: construction, appends, finalization *)

Lemma geb_decide (x y : Z) : (x >=? y) = bool_decide (y ≤ x).
Proof.
  rewrite Z.geb_leb. destruct (Z.leb_spec y x).
  - by rewrite bool_decide_eq_true_2.
  - rewrite bool_decide_eq_false_2; [done | lia].
Qed.

(** Finalizing asks the gate exactly once and reaches the sink at most
    once, whatever the accumulator holds. *)
Lemma finalize_asks_once_delivers_at_most_once (c : string → Z) (self : DLogger) :
  length (gate_queries (finalize_calls c self)) = 1%nat
  ∧ (length (deliveries (finalize_calls c self)) ≤ 1)%nat.
Proof.
  unfold finalize_calls.
  destruct (mLevel self >=? c (c_str (mLoggerName self))); cbn; lia.
Qed.

(** C1: let S2 be the level configured for partition P.  A log statement
    at a severity S1 < S2 asks the gate once and delivers nothing; a log
    statement at a severity S >= S2 asks the gate once and hands the sink
    one message, (P, S, the concatenated text); in both cases whatever
    the fragments, and nothing else in the world changes. *)
Theorem gate_filters_by_severity
    (w : World) (P : string) (S1 S2 S : Z) (fs : list Fragment) :
  currentMinimumLevel w P = S2 →
  S1 < S2 →
  S2 ≤ S →
  log_statement S1 P fs w =
    Some ((), with_calls (λ cs, cs ++ [CallGetLogLevel (c_str P)]) w)
  ∧ log_statement S P fs w =
    Some ((), with_calls
                (λ cs, cs ++ [CallGetLogLevel (c_str P);
                              CallWriteDLog P S (concat_text fs)]) w).
Proof.
  unfold currentMinimumLevel. intros Hmin Hlt Hle.
  rewrite !log_statement_run. unfold finalize_calls; cbn.
  rewrite !geb_decide, Hmin.
  rewrite bool_decide_eq_false_2 by lia.
  rewrite bool_decide_eq_true_2 by lia.
  split; reflexivity.
Qed.

Lemma gate_filters_by_severity_witness :
  currentMinimumLevel w_net "net" = WARN
  ∧ INFO < WARN
  ∧ WARN ≤ ERROR
  ∧ log_statement INFO "net" [Frag "conn "; Frag 42; Frag " closed"] w_net =
      Some ((), with_calls (λ cs, cs ++ [CallGetLogLevel "net"]) w_net)
  ∧ log_statement ERROR "net" [Frag "conn "; Frag 42; Frag " closed"] w_net =
      Some ((), with_calls
                  (λ cs, cs ++ [CallGetLogLevel "net";
                                CallWriteDLog "net" ERROR "conn 42 closed"]) w_net).
Proof.
  assert (Hle : WARN ≤ ERROR) by (vm_compute; discriminate).
  split; [reflexivity|]. split; [reflexivity|]. split; [exact Hle|].
  exact (gate_filters_by_severity w_net "net" INFO WARN ERROR
           [Frag "conn "; Frag 42; Frag " closed"] eq_refl eq_refl Hle).
Defined.

(** C5: when the levels are reconfigured between the construction of an
    accumulator and the end of its statement, the gate is asked once, at
    finalization, and answers from the new configuration: the message is
    delivered iff its severity is at least the new level of its
    partition.  The configuration in force at construction does not
    occur in the outcome, and the constructor asks the gate nothing. *)
Theorem level_at_scope_exit_governs
    (w : World) (LEVEL : Z) (MOD : string) (fs1 fs2 : list Fragment) (c : string → Z) :
  log_statement_reconfigured LEVEL MOD fs1 fs2 c w =
    Some ((), with_calls
                (λ cs, cs ++ CallGetLogLevel (c_str MOD) ::
                         (if bool_decide (c (c_str MOD) ≤ LEVEL)
                          then [CallWriteDLog MOD LEVEL (concat_text (fs1 ++ fs2))]
                          else []))
                (with_config c w))
  ∧ (∃ d w1, CLOG LEVEL MOD w = Some (d, w1) ∧ calls w1 = calls w).
Proof.
  split.
  - rewrite log_statement_reconfigured_run. unfold finalize_calls; cbn.
    by rewrite geb_decide.
  - rewrite CLOG_run. do 2 eexists. split; [reflexivity|]. by destruct w.
Qed.

Example raised_level_silences :
  journal (log_statement INFO "db" [Frag "x"] w_net)
    = Some [CallGetLogLevel "db"; CallWriteDLog "db" INFO "x"]
  ∧ journal (log_statement_reconfigured INFO "db" [Frag "x"] [] c_quiet w_net)
    = Some [CallGetLogLevel "db"].
Proof. split; vm_compute; reflexivity. Qed.

Example lowered_level_lets_through :
  journal (log_statement INFO "net" [Frag "x"] w_net)
    = Some [CallGetLogLevel "net"]
  ∧ journal (log_statement_reconfigured INFO "net" [] [Frag "x"] c_verbose w_net)
    = Some [CallGetLogLevel "net"; CallWriteDLog "net" INFO "x"].
Proof. split; vm_compute; reflexivity. Qed.

(** C6: a log statement without any append, at a severity enabled for its
    partition, hands the sink exactly one message, and its text is
    empty. *)
Theorem empty_message_delivered_once (w : World) (P : string) (S : Z) :
  currentMinimumLevel w P ≤ S →
  log_statement S P [] w =
    Some ((), with_calls
                (λ cs, cs ++ [CallGetLogLevel (c_str P); CallWriteDLog P S ""]) w)
  ∧ deliveries [CallGetLogLevel (c_str P); CallWriteDLog P S ""]
      = [CallWriteDLog P S ""].
Proof.
  unfold currentMinimumLevel. intros Hle. split; [|reflexivity].
  rewrite log_statement_run. unfold finalize_calls; cbn.
  rewrite geb_decide, bool_decide_eq_true_2 by lia. reflexivity.
Qed.

Lemma empty_message_delivered_once_witness :
  currentMinimumLevel w_net "net" ≤ WARN
  ∧ log_statement WARN "net" [] w_net =
      Some ((), with_calls
                  (λ cs, cs ++ [CallGetLogLevel "net"; CallWriteDLog "net" WARN ""]) w_net)
  ∧ deliveries [CallGetLogLevel "net"; CallWriteDLog "net" WARN ""]
      = [CallWriteDLog "net" WARN ""].
Proof.
  assert (Hle : currentMinimumLevel w_net "net" ≤ WARN) by (vm_compute; discriminate).
  split; [exact Hle|].
  exact (empty_message_delivered_once w_net "net" WARN Hle).
Defined.

(** * Further properties of the header *)

(** ** Partition names and [c_str] *)

Lemma c_str_cut (P t : string) : c_str (P +:+ String Ascii.zero t) = c_str P.
Proof.
  induction P as [|a P IH]; [reflexivity|].
  rewrite append_cons. cbn [c_str]. rewrite IH. reflexivity.
Qed.

Lemma c_str_nul_free (P : string) : nul_free (c_str P) = true.
Proof.
  induction P as [|a P IH]; [reflexivity|].
  cbn [c_str]. destruct (Ascii.eqb a Ascii.zero) eqn:Ha; [reflexivity|].
  cbn [nul_free]. rewrite Ha, IH. reflexivity.
Qed.

Lemma c_str_split (P : string) :
  P = c_str P ∨ ∃ rest, P = c_str P +:+ String Ascii.zero rest.
Proof.
  induction P as [|a P IH]; [by left|].
  cbn [c_str]. destruct (Ascii.eqb a Ascii.zero) eqn:Ha.
  - apply Ascii.eqb_eq in Ha as ->. right. by exists P.
  - destruct IH as [IH | [rest IH]].
    + left. by rewrite <- IH.
    + right. exists rest. rewrite append_cons. by rewrite <- IH.
Qed.

Lemma c_str_of_nul_free (P : string) : nul_free P = true → c_str P = P.
Proof.
  induction P as [|a P IH]; [done|].
  cbn [nul_free c_str]. destruct (Ascii.eqb a Ascii.zero); cbn; [done|].
  intros HP. by rewrite IH.
Qed.

(** X1: whatever follows an embedded NUL in the partition name is ignored:
    [logDebug] and [logTrace] on [P], a NUL and any further text ask for
    the same logger, return the same answer and leave the same world as on
    [P] alone. *)
Theorem predicates_ignore_text_after_nul (P t : string) (w : World) :
  logDebug (P +:+ String Ascii.zero t) w = logDebug P w
  ∧ logTrace (P +:+ String Ascii.zero t) w = logTrace P w.
Proof. unfold logDebug, logTrace. rewrite c_str_cut. split; reflexivity. Qed.

(** X2: the logger name that [logDebug] and [logTrace] hand to
    [getLogLevel] never holds a NUL; the partition name is that name,
    alone or followed by a NUL and more text; and a partition name
    without NUL is handed over as it is. *)
Theorem predicates_query_nul_free_prefix (P : string) (w : World) :
  ∃ name : string,
    journal (logDebug P w) = Some (calls w ++ [CallGetLogLevel name])
    ∧ journal (logTrace P w) = Some (calls w ++ [CallGetLogLevel name])
    ∧ nul_free name = true
    ∧ (P = name ∨ ∃ rest, P = name +:+ String Ascii.zero rest)
    ∧ (if nul_free P then name = P else name ≠ P).
Proof.
  exists (c_str P). split; [reflexivity|]. split; [reflexivity|].
  split; [apply c_str_nul_free|]. split; [apply c_str_split|].
  destruct (nul_free P) eqn:HP.
  - by apply c_str_of_nul_free.
  - intros Heq. rewrite <- Heq, c_str_nul_free in HP. discriminate HP.
Qed.

(** ** The predicates and the level values *)

(** X3: with the partition configured at one of the six named levels,
    [logDebug] and [logTrace] both answer true at TRACE and at DEBUG and
    false at INFO, WARN, ERROR and FATAL. *)
Theorem predicates_at_named_levels (P : string) (w : World) (s : Severity) :
  currentMinimumLevel w P = value s →
  result (logDebug P w) = Some (bool_decide (s = Trace ∨ s = Debug))
  ∧ result (logTrace P w) = Some (bool_decide (s = Trace ∨ s = Debug)).
Proof.
  unfold currentMinimumLevel, logDebug, logTrace, getLogLevel, result.
  unfold mbind, M_bind, mret, M_ret; cbn. intros ->.
  destruct s; split; reflexivity.
Qed.

Lemma predicates_at_named_levels_witness :
  currentMinimumLevel w_net "net" = value Warn
  ∧ result (logDebug "net" w_net) = Some false
  ∧ result (logTrace "net" w_net) = Some false.
Proof.
  split; [reflexivity|].
  exact (predicates_at_named_levels "net" w_net Warn eq_refl).
Defined.

(** X4: lowering the level configured for a partition never turns the
    predicates off: if [logDebug] answers true in one world, then in any
    world where the partition's level is the same or lower (negative
    levels included) [logDebug] and [logTrace] answer true. *)
Theorem lowering_level_keeps_predicates_on (P : string) (w w' : World) :
  currentMinimumLevel w' P ≤ currentMinimumLevel w P →
  result (logDebug P w) = Some true →
  result (logDebug P w') = Some true ∧ result (logTrace P w') = Some true.
Proof.
  unfold currentMinimumLevel, logDebug, logTrace, getLogLevel, result.
  unfold mbind, M_bind, mret, M_ret; cbn. intros Hle Hon.
  assert (Hw : config w (c_str P) ≤ DEBUG).
  { apply Z.leb_le. congruence. }
  assert (Hw' : (config w' (c_str P) <=? DEBUG) = true).
  { apply Z.leb_le. lia. }
  split; [by rewrite Hw' | by rewrite <- Hw'].
Qed.

Lemma lowering_level_keeps_predicates_on_witness :
  currentMinimumLevel w_net_negative "net" ≤ currentMinimumLevel w_net_verbose "net"
  ∧ result (logDebug "net" w_net_verbose) = Some true
  ∧ result (logDebug "net" w_net_negative) = Some true
  ∧ result (logTrace "net" w_net_negative) = Some true.
Proof.
  assert (Hle : currentMinimumLevel w_net_negative "net"
                ≤ currentMinimumLevel w_net_verbose "net")
    by (vm_compute; discriminate).
  split; [exact Hle|]. split; [reflexivity|].
  exact (lowering_level_keeps_predicates_on "net" w_net_verbose w_net_negative
           Hle eq_refl).
Defined.

(** ** Chains of appends *)

(** A chain of appends neither reads nor writes the journal. *)
Lemma appends_calls_frame (fs : list Fragment) :
  ∀ (this : loc) (w : World) (f : list ExternCall → list ExternCall),
    appends this fs (with_calls f w) =
      match appends this fs w with
      | Some (d, w') => Some (d, with_calls f w')
      | None => None
      end.
Proof.
  induction fs as [|[T HT v] fs IH]; intros this w f; [reflexivity|].
  cbn [appends]. unfold mbind, M_bind, operator_shl.
  change (objects (with_calls f w)) with (objects w).
  destruct (objects w !! this) as [self|]; [|reflexivity].
  exact (IH this (with_objects _ w) f).
Qed.

Lemma length_append (s t : string) :
  String.length (s +:+ t) = (String.length s + String.length t)%nat.
Proof.
  induction s as [|a s IH]; [reflexivity|].
  rewrite append_cons. cbn [String.length]. by rewrite IH.
Qed.

Lemma prefix_append (s t : string) : String.prefix s (s +:+ t) = true.
Proof.
  induction s as [|a s IH]; [by destruct t|].
  rewrite append_cons. cbn [String.prefix].
  destruct (Ascii.ascii_dec a a); [exact IH | done].
Qed.

Lemma length_concat_text (fs : list Fragment) :
  String.length (concat_text fs) = rendered_length fs.
Proof.
  induction fs as [|f fs IH]; [reflexivity|].
  unfold concat_text, rendered_length in *. cbn [foldr].
  by rewrite length_append, IH.
Qed.

(** X5: chains of appends on two different live accumulators do not
    interfere: run in either order they return the same accumulators and
    leave the same world, each accumulator holding its own text. *)
Theorem appends_on_distinct_accumulators_commute
    (w : World) (a b : loc) (sa sb : DLogger) (fs gs : list Fragment) :
  a ≠ b →
  objects w !! a = Some sa →
  objects w !! b = Some sb →
  in_order (appends a fs) (appends b gs) w = in_reverse (appends a fs) (appends b gs) w
  ∧ ∃ w', in_order (appends a fs) (appends b gs) w = Some ((a, b), w')
          ∧ mOutStream <$> objects w' !! a = Some (mOutStream sa +:+ concat_text fs)
          ∧ mOutStream <$> objects w' !! b = Some (mOutStream sb +:+ concat_text gs).
Proof.
  intros Hne Ha Hb.
  assert (Hfwd : in_order (appends a fs) (appends b gs) w =
    Some ((a, b), with_objects
      (λ o, <[b := mkDLogger (mLoggerName sb) (mLevel sb) (mOutStream sb +:+ concat_text gs)]>
            (<[a := mkDLogger (mLoggerName sa) (mLevel sa) (mOutStream sa +:+ concat_text fs)]> o))
      w)).
  { unfold in_order.
    rewrite (bind_run _ _ _ _ _ (appends_run fs a w sa Ha)).
    erewrite bind_run; last first.
    { apply appends_run with (self := sb).
      destruct w; cbn in *. by rewrite lookup_insert_ne. }
    by destruct w. }
  split.
  - rewrite Hfwd. unfold in_reverse.
    rewrite (bind_run _ _ _ _ _ (appends_run gs b w sb Hb)).
    erewrite bind_run; last first.
    { apply appends_run with (self := sa).
      destruct w; cbn in *. by rewrite lookup_insert_ne. }
    destruct w as [c cs o]; unfold mret, M_ret, with_objects; cbn.
    by rewrite insert_insert_ne.
  - eexists. split; [exact Hfwd|].
    destruct w as [c cs o]; cbn in *.
    rewrite lookup_insert_ne, !lookup_insert_eq by done. done.
Qed.

Lemma appends_on_distinct_accumulators_commute_witness :
  1%positive ≠ 2%positive
  ∧ objects w_net !! 1%positive = Some (mkDLogger "net" ERROR "conn ")
  ∧ objects w_net !! 2%positive = Some (mkDLogger "db" INFO "")
  ∧ in_order (appends 1%positive [Frag 42]) (appends 2%positive [Frag "x"; Frag true]) w_net
    = in_reverse (appends 1%positive [Frag 42]) (appends 2%positive [Frag "x"; Frag true]) w_net
  ∧ ∃ w', in_order (appends 1%positive [Frag 42]) (appends 2%positive [Frag "x"; Frag true]) w_net
            = Some ((1%positive, 2%positive), w')
          ∧ mOutStream <$> objects w' !! 1%positive = Some "conn 42"
          ∧ mOutStream <$> objects w' !! 2%positive = Some "x1".
Proof.
  assert (Hne : 1%positive ≠ 2%positive) by discriminate.
  split; [exact Hne|]. split; [reflexivity|]. split; [reflexivity|].
  exact (appends_on_distinct_accumulators_commute w_net 1%positive 2%positive
           (mkDLogger "net" ERROR "conn ") (mkDLogger "db" INFO "")
           [Frag 42] [Frag "x"; Frag true] Hne eq_refl eq_refl).
Defined.

(** X6: a level predicate and a chain of appends do not interfere: asked
    before or after the chain, on a live accumulator or not, [logDebug]
    and [logTrace] give the same outcome (same answer, same journal, same
    objects), and the answer is the one the configuration gives. *)
Theorem predicates_commute_with_appends
    (P : string) (this : loc) (fs : list Fragment) (w : World) :
  (in_order (appends this fs) (logDebug P) w = in_reverse (appends this fs) (logDebug P) w
   ∧ in_order (appends this fs) (logTrace P) w = in_reverse (appends this fs) (logTrace P) w)
  ∧ result (in_order (appends this fs) (logDebug P) w)
    = (λ d, (d, bool_decide (currentMinimumLevel w P ≤ DEBUG))) <$> result (appends this fs w).
Proof.
  assert (Hleb : ∀ x y : Z, (x <=? y) = bool_decide (x ≤ y)).
  { intros x y. destruct (Z.leb_spec x y).
    - by rewrite bool_decide_eq_true_2.
    - rewrite bool_decide_eq_false_2; [done | lia]. }
  unfold in_order, in_reverse, logDebug, logTrace, getLogLevel, currentMinimumLevel, result.
  unfold mbind, M_bind, mret, M_ret.
  rewrite appends_calls_frame.
  destruct (appends this fs w) as [[d w']|] eqn:Hrun; [|done].
  assert (Hcfg : config w' = config w).
  { clear -Hrun. revert this w Hrun.
    induction fs as [|[T HT v] fs IH]; intros this w Hrun.
    - cbn in Hrun. unfold mret, M_ret in Hrun. congruence.
    - cbn [appends] in Hrun. unfold mbind, M_bind, operator_shl in Hrun.
      destruct (objects w !! this); [|done].
      apply IH in Hrun. by destruct w. }
  rewrite Hcfg, Hleb. done.
Qed.



(** X8: appends never shorten or rewrite what an accumulator already
    holds: after a chain on a live accumulator the old text is a prefix
    of the new one, and the text is longer by exactly the number of
    characters the fragments render to. *)
Theorem appends_only_extend_text
    (w : World) (this : loc) (self : DLogger) (fs : list Fragment) :
  objects w !! this = Some self →
  ∃ w' self',
    appends this fs w = Some (this, w')
    ∧ objects w' !! this = Some self'
    ∧ String.prefix (mOutStream self) (mOutStream self') = true
    ∧ String.length (mOutStream self')
      = (String.length (mOutStream self) + rendered_length fs)%nat.
Proof.
  intros Hl. do 2 eexists.
  split; [by apply appends_run|].
  split; [destruct w; cbn; apply lookup_insert_eq|].
  cbn. split; [apply prefix_append|].
  by rewrite length_append, length_concat_text.
Qed.

Lemma appends_only_extend_text_witness :
  objects w_net !! 1%positive = Some (mkDLogger "net" ERROR "conn ")
  ∧ ∃ w' self',
      appends 1%positive [Frag 42; Frag " failed"] w_net = Some (1%positive, w')
      ∧ objects w' !! 1%positive = Some self'
      ∧ String.prefix "conn " (mOutStream self') = true
      ∧ String.length (mOutStream self') = (5 + 9)%nat.
Proof.
  split; [reflexivity|].
  exact (appends_only_extend_text w_net 1%positive (mkDLogger "net" ERROR "conn ")
           [Frag 42; Frag " failed"] eq_refl).
Defined.
